(** * log_analyzer: a shallow embedding of [src/log_analyzer.py]

    The script is Python 2 code: [parse_file] reads its input in binary
    mode and hands the lines to [str] patterns, [json.load] is given an
    [encoding] argument, and line 96 writes [errors / float(records_count)]
    to get a true division.  The embedding therefore follows Python 2:

    - a [str] is a byte string, modelled by [string]; [\s] and
      [str.split()] know the six ASCII white-space bytes, [\d] the ten
      ASCII digits;
    - [/] between two [int]s is floor division, and true division as
      soon as one operand is a [float];
    - a [float] is modelled by the rational it denotes (rounding to
      binary64 is not modelled); the values are kept in lowest terms so
      that equal numbers are equal terms;
    - a raised exception is an explicit outcome ([Raised]), so that
      returning [None] and raising are different results. *)

From Stdlib Require Import ZArith QArith String Ascii List Bool Lia.
From stdpp Require Import gmap strings list sorting.

Local Open Scope string_scope.
Local Open Scope nat_scope.

(** ** Exceptions and results *)

Inductive exn :=
  | AttributeError
  | ValueError
  | IndexError
  | ZeroDivisionError
  | RuntimeError.

Inductive result (A : Type) :=
  | Ok (a : A)
  | Raised (e : exn).
Arguments Ok {A} a.
Arguments Raised {A} e.

#[global] Instance result_ret : MRet result := fun A a => Ok a.

#[global] Instance result_bind : MBind result := fun A B k r =>
  match r with
  | Ok a => k a
  | Raised e => Raised e
  end.

(** ** Byte strings *)

Definition is_space (c : ascii) : bool :=
  match c with
  | " " | "009" | "010" | "011" | "012" | "013" => true
  | _ => false
  end%char.

Definition is_digit (c : ascii) : bool :=
  let n := nat_of_ascii c in (48 <=? n) && (n <=? 57).

Definition digit_value (c : ascii) : N := N.of_nat (nat_of_ascii c - 48).

Definition dquote : ascii := "034"%char.

Definition quoted (s : string) : string := String dquote (s +:+ String dquote "").

Definition not_char (d : ascii) (c : ascii) : bool := negb (Ascii.eqb c d).

(** [s[n:]] for [0 <= n]. *)
Fixpoint str_drop (n : nat) (s : string) : string :=
  match n, s with
  | S n', String _ s' => str_drop n' s'
  | _, _ => s
  end.

(** [s[:n]] for [0 <= n]. *)
Fixpoint str_take (n : nat) (s : string) : string :=
  match n, s with
  | S n', String c s' => String c (str_take n' s')
  | _, _ => ""
  end.

(** The longest prefix of [s] made of characters that satisfy [p]. *)
Fixpoint take_while (p : ascii -> bool) (s : string) : string :=
  match s with
  | String c s' => if p c then String c (take_while p s') else ""
  | "" => ""
  end.

Fixpoint drop_while (p : ascii -> bool) (s : string) : string :=
  match s with
  | String c s' => if p c then drop_while p s' else s
  | "" => ""
  end.

Fixpoint str_forall (p : ascii -> bool) (s : string) : bool :=
  match s with
  | String c s' => p c && str_forall p s'
  | "" => true
  end.

Definition startswith (s : string) (c : ascii) : bool :=
  match s with
  | String c' _ => Ascii.eqb c' c
  | "" => false
  end.

Fixpoint endswith (s : string) (c : ascii) : bool :=
  match s with
  | "" => false
  | String c' "" => Ascii.eqb c' c
  | String _ s' => endswith s' c
  end.

(** [s.rstrip(chars)], [s.lstrip(chars)] and [s.strip(chars)], the set of
    characters given as a predicate. *)
Fixpoint rstrip (p : ascii -> bool) (s : string) : string :=
  match s with
  | "" => ""
  | String c s' =>
      match rstrip p s' with
      | "" => if p c then "" else String c ""
      | r => String c r
      end
  end.

Definition lstrip (p : ascii -> bool) (s : string) : string := drop_while p s.

Definition strip (p : ascii -> bool) (s : string) : string := rstrip p (lstrip p s).

(** [s.split()]: the maximal runs of non-white-space characters. [word]
    is the run being read. *)
Fixpoint split_from (word : string) (s : string) : list string :=
  match s with
  | "" => match word with "" => [] | _ => [word] end
  | String c s' =>
      if is_space c
      then match word with
           | "" => split_from "" s'
           | _ => word :: split_from "" s'
           end
      else split_from (word +:+ String c "") s'
  end.

Definition split (s : string) : list string := split_from "" s.

(** ** Regular expressions (lines 15-18)

    [re_match p line pos] is [p.match(line, pos)]: the match anchored at
    [pos], or [None].  A match object is read through [m.group()] and
    [m.end()] only. *)

Record match_object := { group : string; m_end : nat }.

Inductive pattern :=
  | SEPARATOR_PATTERN   (* \s+ *)
  | QUOTED_PATTERN      (* a double quote, [^quote]+, a double quote *)
  | SQUARE_PATTERN      (* \[([^\]]+)\] *)
  | STRING_PATTERN.     (* ([^\s]+) *)

(** A greedy run [c+] of a character class. *)
Definition match_run (p : ascii -> bool) (line : string) (pos : nat)
  : option match_object :=
  match take_while p (str_drop pos line) with
  | "" => None
  | g => Some {| group := g; m_end := pos + String.length g |}
  end.

(** [opening [^closing]+ closing]: the class cannot step over [closing],
    so the only candidate is the run up to the next [closing], which has
    to exist and to be preceded by at least one character. *)
Definition match_span (opening closing : ascii) (line : string) (pos : nat)
  : option match_object :=
  match str_drop pos line with
  | String c s =>
      if Ascii.eqb c opening then
        let body := take_while (not_char closing) s in
        match body, str_drop (String.length body) s with
        | String _ _, String _ _ =>
            Some {| group := String opening (body +:+ String closing "");
                    m_end := pos + (String.length body + 2) |}
        | _, _ => None
        end
      else None
  | "" => None
  end.

Definition re_match (p : pattern) (line : string) (pos : nat)
  : option match_object :=
  match p with
  | SEPARATOR_PATTERN => match_run is_space line pos
  | QUOTED_PATTERN => match_span dquote dquote line pos
  | SQUARE_PATTERN => match_span "[" "]" line pos
  | STRING_PATTERN => match_run (fun c => negb (is_space c)) line pos
  end.

Definition LOG_FORMAT : string :=
  "remote_addr  remote_user http_x_real_ip [time_local] " +:+ quoted "request"
  +:+ " status body_bytes_sent " +:+ quoted "http_referer" +:+ " "
  +:+ quoted "http_user_agent" +:+ " " +:+ quoted "http_x_forwarded_for" +:+ " "
  +:+ quoted "http_X_REQUEST_ID" +:+ " " +:+ quoted "http_X_RB_USER" +:+ " "
  +:+ "request_time".

(** ** [float(s)] (Python 2.7, [s] a [str])

    White space is stripped, then come an optional sign and either one of
    the words inf, infinity, nan (in any case) or a decimal number:
    digits with an optional fraction, or a fraction alone, and an
    optional exponent.  Anything else is a [ValueError]. *)

Inductive pyfloat :=
  | Finite (q : Q)
  | Infinite (negative : bool)
  | NaN.

Definition lower (c : ascii) : ascii :=
  let n := nat_of_ascii c in
  if (65 <=? n) && (n <=? 90) then ascii_of_nat (n + 32) else c.

Fixpoint str_lower (s : string) : string :=
  match s with
  | String c s' => String (lower c) (str_lower s')
  | "" => ""
  end.

Fixpoint digits_value (acc : N) (s : string) : N :=
  match s with
  | String c s' => digits_value (10 * acc + digit_value c)%N s'
  | "" => acc
  end.

(** An optional sign: is it a minus, and what follows. *)
Definition read_sign (s : string) : bool * string :=
  match s with
  | String "-" s' => (true, s')
  | String "+" s' => (false, s')
  | _ => (false, s)
  end.

(** The exponent part: nothing, or e, an optional sign and digits to the
    end of the text. *)
Definition read_exponent (s : string) : option Z :=
  match s with
  | "" => Some 0%Z
  | String c s' =>
      if Ascii.eqb (lower c) "e" then
        let (neg, ds) := read_sign s' in
        match ds with
        | "" => None
        | _ =>
            if str_forall is_digit ds
            then let n := Z.of_N (digits_value 0 ds) in
                 Some (if neg then - n else n)%Z
            else None
        end
      else None
  end.

(** [m * 10 ^ e], in lowest terms. *)
Definition scale10 (m : Z) (e : Z) : Q :=
  if (0 <=? e)%Z
  then Qred (Qmake (m * 10 ^ e) 1)
  else Qred (Qmake m (Z.to_pos (10 ^ (- e)))).

Definition read_decimal (s : string) : option Q :=
  let ip := take_while is_digit s in
  let r1 := str_drop (String.length ip) s in
  let '(fp, r2) :=
    match r1 with
    | String "." r => let fp := take_while is_digit r in
                      (fp, str_drop (String.length fp) r)
    | _ => ("", r1)
    end in
  match ip +:+ fp with
  | "" => None
  | ds =>
      match read_exponent r2 with
      | Some e => Some (scale10 (Z.of_N (digits_value 0 ds))
                                (e - Z.of_nat (String.length fp)))
      | None => None
      end
  end.

Definition float (s : string) : result pyfloat :=
  let (neg, body) := read_sign (strip is_space s) in
  let word := str_lower body in
  if String.eqb word "inf" || String.eqb word "infinity" then Ok (Infinite neg)
  else if String.eqb word "nan" then Ok NaN
  else match read_decimal body with
       | Some q => Ok (Finite (if neg then Qred (- q) else q))
       | None => Raised ValueError
       end.

(** ** [parse_line] (lines 45-78) *)

Inductive value :=
  | VStr (s : string)
  | VFloat (x : pyfloat).

(** [field_name.strip(...)] with the three delimiter characters. *)
Definition is_delimiter (c : ascii) : bool :=
  Ascii.eqb c dquote || Ascii.eqb c "[" || Ascii.eqb c "]".

(** Lines 49-54: the pattern a template token selects. *)
Definition field_pattern (field_name : string) : pattern :=
  if startswith field_name dquote && endswith field_name dquote then QUOTED_PATTERN
  else if startswith field_name "[" && endswith field_name "]" then SQUARE_PATTERN
  else STRING_PATTERN.

(** Lines 59-65, given the matched text: [None] is the early
    [return None], otherwise [parsed] with the key url set. *)
Definition store_url (group : string) (parsed : gmap string value)
  : option (gmap string value) :=
  match split group with
  | _ :: url :: _ => Some (<["url" := VStr url]> parsed)
  | _ => None
  end.

(** Lines 67-70. [float] may raise [ValueError], which the handler of
    line 71 does not catch. *)
Definition store_field (field_name group : string) (parsed : gmap string value)
  : result (gmap string value) :=
  if String.eqb field_name "request_time"
  then x ← float group; Ok (<[field_name := VFloat x]> parsed)
  else Ok (<[field_name := VStr group]> parsed).

(** The loop of lines 48-76 over the remaining tokens, with the state
    [parsed], [end] it carries; [last] is [format.split()[-1]].  With
    [m = None] every use of [m] in the [try] block raises
    [AttributeError], which line 71 turns into [return None]; line 76
    is outside the block. *)
Fixpoint parse_fields (line last : string) (fields : list string)
    (parsed : gmap string value) (end_ : nat)
  : result (option (gmap string value)) :=
  match fields with
  | [] => Ok (Some parsed)
  | token :: fields' =>
      let m := re_match (field_pattern token) line end_ in
      let field_name := strip is_delimiter token in
      match m with
      | None => Ok None
      | Some m =>
          match (if String.eqb field_name "request"
                 then store_url (group m) parsed else Some parsed) with
          | None => Ok None
          | Some parsed =>
              parsed ← store_field field_name (group m) parsed;
              if negb (String.eqb field_name last) then
                match re_match SEPARATOR_PATTERN line (m_end m) with
                | None => Raised AttributeError
                | Some msep => parse_fields line last fields' parsed (m_end msep)
                end
              else parse_fields line last fields' parsed end_
          end
      end
  end.

Definition parse_line (line format : string) : result (option (gmap string value)) :=
  let fields := split format in
  parse_fields line (List.last fields "") fields ∅ 0.

(** ** [parse_file] (lines 81-97)

    The file is the list of its lines (opening and decompressing it are
    outside the model).  The generator is the finite trace it produces:
    the records it yields, in order, and how it ends. *)

Inductive gen (A : Type) :=
  | Yield (a : A) (rest : gen A)
  | StopIteration
  | Throw (e : exn).
Arguments Yield {A} a rest.
Arguments StopIteration {A}.
Arguments Throw {A} e.



(** Line 96, reached with every line read. *)
Definition over_budget (errors_limit : option Q) (errors records_count : nat) : bool :=
  match errors_limit with
  | None => false
  | Some limit =>
      (0 <? records_count)
      && negb (Qle_bool (inject_Z (Z.of_nat errors) / inject_Z (Z.of_nat records_count))
                        limit)
  end.

Fixpoint parse_file_from (log : list string) (format : string) (errors_limit : option Q)
    (errors records_count : nat) : gen (gmap string value) :=
  match log with
  | line :: log' =>
      let records_count := S records_count in
      match parse_line line format with
      | Raised e => Throw e
      | Ok None => parse_file_from log' format errors_limit (S errors) records_count
      | Ok (Some parsed) =>
          (* [not log_record] also holds for the empty dict *)
          if bool_decide (parsed = ∅)
          then parse_file_from log' format errors_limit (S errors) records_count
          else Yield parsed (parse_file_from log' format errors_limit errors records_count)
      end
  | [] =>
      if over_budget errors_limit errors records_count
      then Throw RuntimeError
      else StopIteration
  end.

Definition parse_file (log : list string) (format : string) (errors_limit : option Q)
  : gen (gmap string value) :=
  parse_file_from log format errors_limit 0 0.

(** ** [get_last_log_file] (lines 27-42) *)

Record pydate := { year : Z; month : Z; day : Z }.

Record LogfileInfo := { filename : string; date : pydate }.

(** What [log_dir] names: [os.path.isdir] holds for a directory only, and
    [os.listdir] gives its entries in some order (a directory that cannot
    be listed is outside the model). *)
Inductive path :=
  | NoSuchPath
  | NotADirectory
  | Directory (entries : list string).

Definition is_leap (y : Z) : bool :=
  ((y mod 4 =? 0) && negb (y mod 100 =? 0) || (y mod 400 =? 0))%Z.

Definition days_in_month (y m : Z) : Z :=
  (if m =? 2 then (if is_leap y then 29 else 28)
   else if (m =? 4) || (m =? 6) || (m =? 9) || (m =? 11) then 30
   else 31)%Z.

(** [datetime.strptime(s, '%Y%m%d').date()] for a text of eight digits:
    the directives take four, two and two digits (a shorter month or day
    leaves unconverted data), and the date has to exist. *)
Definition strptime (s : string) : result pydate :=
  let y := Z.of_N (digits_value 0 (str_take 4 s)) in
  let m := Z.of_N (digits_value 0 (str_take 2 (str_drop 4 s))) in
  let d := Z.of_N (digits_value 0 (str_drop 6 s)) in
  if ((1 <=? y) && (1 <=? m) && (m <=? 12) && (1 <=? d) && (d <=? days_in_month y m))%Z
  then Ok {| year := y; month := m; day := d |}
  else Raised ValueError.

(** [s] without the prefix [p], when it has it. *)
Fixpoint strip_prefix (p s : string) : option string :=
  match p, s with
  | "", _ => Some s
  | String a p', String b s' => if Ascii.eqb a b then strip_prefix p' s' else None
  | _, "" => None
  end.

(** The dollar sign of the pattern: the end of the text, or a final
    line feed. *)
Definition at_end (s : string) : bool :=
  String.eqb s "" || String.eqb s (String "010" "").

(** Line 33: the group [date] of the match, [None] without a match. *)
Definition match_filename (filename : string) : option string :=
  match strip_prefix "nginx-access-ui.log-" filename with
  | None => None
  | Some s =>
      let digits := str_take 8 s in
      let rest := str_drop 8 s in
      if (String.length digits =? 8) && str_forall is_digit digits
         && (at_end rest
             || match strip_prefix ".gz" rest with
                | Some rest' => at_end rest'
                | None => false
                end)
      then Some digits
      else None
  end.

(** Line 35: [match.groupdict()] raises [AttributeError] on [None]. *)
Definition file_date (filename : string) : result pydate :=
  match match_filename filename with
  | None => Raised AttributeError
  | Some digits => strptime digits
  end.

(** [a > b] on dates. *)
Definition date_gt (a b : pydate) : bool :=
  ((year b <? year a)
   || (year b =? year a) && ((month b <? month a)
                             || (month b =? month a) && (day b <? day a)))%Z.

(** The body of the loop, lines 33-40; a named tuple of two fields is
    true, so [not last_log] asks for [None]. *)
Definition scan_entry (last_log : option LogfileInfo) (filename : string)
  : result (option LogfileInfo) :=
  match file_date filename with
  | Raised ValueError | Raised AttributeError => Ok last_log
  | Raised e => Raised e
  | Ok file_date =>
      match last_log with
      | None => Ok (Some {| filename := filename; date := file_date |})
      | Some last =>
          if date_gt file_date (date last)
          then Ok (Some {| filename := filename; date := file_date |})
          else Ok last_log
      end
  end.

Fixpoint scan_entries (entries : list string) (last_log : option LogfileInfo)
  : result (option LogfileInfo) :=
  match entries with
  | [] => Ok last_log
  | filename :: entries' =>
      last_log ← scan_entry last_log filename;
      scan_entries entries' last_log
  end.

Definition get_last_log_file (log_dir : path) : result (option LogfileInfo) :=
  match log_dir with
  | Directory entries => scan_entries entries None
  | _ => Ok None
  end.

(** ** Numbers

    An [int] or a [float]; arithmetic between two [int]s stays in [int],
    anything else is done on floats. *)

Inductive num :=
  | Int (z : Z)
  | Float (q : Q).

Definition num_value (x : num) : Q :=
  match x with
  | Int z => inject_Z z
  | Float q => q
  end.

Definition num_add (x y : num) : num :=
  match x, y with
  | Int a, Int b => Int (a + b)
  | _, _ => Float (Qred (num_value x + num_value y))
  end.

Definition num_mul (x y : num) : num :=
  match x, y with
  | Int a, Int b => Int (a * b)
  | _, _ => Float (Qred (num_value x * num_value y))
  end.

(** [x / y]: floor division on two [int]s, true division otherwise. *)
Definition num_div (x y : num) : result num :=
  match x, y with
  | Int a, Int b =>
      if (b =? 0)%Z then Raised ZeroDivisionError else Ok (Int (a / b))
  | _, _ =>
      if Qeq_bool (num_value y) 0 then Raised ZeroDivisionError
      else Ok (Float (Qred (num_value x / num_value y)))
  end.

(** [x < y] *)
Definition num_lt (x y : num) : bool := negb (Qle_bool (num_value y) (num_value x)).

(** [sum(numbers)] *)
Definition sum (numbers : list num) : num := fold_left num_add numbers (Int 0).

(** [max(numbers)]: the first of the greatest items. *)
Definition max (numbers : list num) : result num :=
  match numbers with
  | [] => Raised ValueError
  | x :: rest => Ok (fold_left (fun best y => if num_lt best y then y else best) rest x)
  end.

(** ** Lists

    [sorted] is stable, and a stable sort has one possible result: it is
    modelled by insertion, an item going in front of the first item that
    does not have to come before it.  [before y x] says that [y] sorts
    strictly before [x]. *)

Section Sorted.
Context {A : Type} (before : A -> A -> bool).

Fixpoint insert_sorted (x : A) (l : list A) : list A :=
  match l with
  | [] => [x]
  | y :: l' => if before y x then y :: insert_sorted x l' else x :: l
  end.

Fixpoint sorted_by (l : list A) : list A :=
  match l with
  | [] => []
  | x :: l' => insert_sorted x (sorted_by l')
  end.
End Sorted.

(** [sorted(numbers)] *)
Definition sorted (numbers : list num) : list num := sorted_by num_lt numbers.

(** A slice bound [i] on a list of length [len]: counted from the end
    when negative, and clipped to the list. *)
Definition slice_index (len : nat) (i : Z) : nat :=
  Z.to_nat (if (i <? 0)%Z then Z.max (i + Z.of_nat len) 0 else Z.min i (Z.of_nat len)).

(** [l[start:stop]] *)
Definition slice {A : Type} (l : list A) (start stop : Z) : list A :=
  let a := slice_index (length l) start in
  let b := slice_index (length l) stop in
  take (b - a) (drop a l).

(** ** [median] (lines 100-105) *)

Definition median (numbers : list num) : result num :=
  let quotient := length numbers / 2 in
  let remainder := length numbers mod 2 in
  if negb (remainder =? 0) then
    match sorted numbers !! quotient with
    | Some x => Ok x
    | None => Raised IndexError
    end
  else
    num_div (sum (slice numbers (Z.of_nat quotient - 1) (Z.of_nat quotient + 1))) (Int 2).

(** ** [calc_stats] (lines 108-132)

    Of a log record the function reads the keys url and request_time
    only; a record is modelled by these two entries.  The dictionary
    [stats['urls']] is a [gmap]; Python 2 leaves the order of its values
    open, the model lists them in the order of the map. *)

Record log_record := { url : string; request_time : num }.

(** An entry of [stats['urls']] while the records are read. *)
Record url_record := {
  ur_count : Z;
  ur_url : string;
  requests_times : list num
}.

(** The same entry once lines 124-130 have run. *)
Record url_stat := {
  stat_url : string;
  count : Z;
  count_perc : num;
  time_sum : num;
  time_perc : num;
  time_avg : num;
  time_max : num;
  time_med : num
}.

Record stats := {
  urls : gmap string url_record;
  requests_count : Z;
  requests_time_sum : num
}.

(** Lines 111-121 *)
Definition add_record (st : stats) (r : log_record) : stats :=
  {| requests_count := requests_count st + 1;
     requests_time_sum := num_add (requests_time_sum st) (request_time r);
     urls :=
       match urls st !! url r with
       | None =>
           <[url r := {| ur_count := 1; ur_url := url r;
                         requests_times := [request_time r] |}]> (urls st)
       | Some u =>
           <[url r := {| ur_count := ur_count u + 1; ur_url := ur_url u;
                         requests_times := requests_times u ++ [request_time r] |}]>
             (urls st)
       end |}.

(** Lines 124-130 *)
Definition finalize (st : stats) (u : url_record) : result url_stat :=
  count_perc ← num_div (num_mul (Int (ur_count u)) (Int 100)) (Int (requests_count st));
  let time_sum := sum (requests_times u) in
  time_perc ← num_div (num_mul time_sum (Int 100)) (requests_time_sum st);
  time_avg ← num_div time_sum (Int (ur_count u));
  time_max ← max (requests_times u);
  time_med ← median (requests_times u);
  Ok {| stat_url := ur_url u; count := ur_count u; count_perc := count_perc;
        time_sum := time_sum; time_perc := time_perc; time_avg := time_avg;
        time_max := time_max; time_med := time_med |}.

Fixpoint for_each {A B : Type} (f : A -> result B) (l : list A) : result (list B) :=
  match l with
  | [] => Ok []
  | a :: l' => b ← f a; bs ← for_each f l'; Ok (b :: bs)
  end.

Definition calc_stats (log_records : list log_record) : result (list url_stat) :=
  let st := fold_left add_record log_records
              {| urls := ∅; requests_count := 0; requests_time_sum := Int 0 |} in
  for_each (finalize st) (map_to_list (urls st)).*2.

(** ** The report data of [make_report] (lines 136-137)

    [select_top stats report_size] is the list given to [json.dumps]:
    [sorted(stats, key=..., reverse=True)[:report_size]]. *)



(** * Statements: the vocabulary of the theorems *)

(** ** [median] *)

(** The median as the specification words it: the middle value of the
    sorted list, or the mean of the two values around its midpoint. *)
Definition standard_median (numbers : list num) : option Q :=
  let s := sorted numbers in
  let n := length s in
  if n mod 2 =? 1 then num_value <$> s !! (n / 2)
  else match s !! (n / 2 - 1), s !! (n / 2) with
       | Some a, Some b => Some (Qred ((num_value a + num_value b) / 2))
       | _, _ => None
       end.

(** ** [parse_line] *)

(** The test data of [tests/test_log_analyzer.py]. *)
Definition input_line : string :=
  "1.200.76.128 f032b48fb33e1e692  - [29/Jun/2017:03:50:32 +0300] "
  +:+ quoted "GET /api/1/campaigns/?id=617832 HTTP/1.1" +:+ " 200 637 "
  +:+ quoted "-" +:+ " " +:+ quoted "-" +:+ " " +:+ quoted "-" +:+ " "
  +:+ quoted "1498697432-4102637017-4709-9928915" +:+ " " +:+ quoted "-" +:+ " 0.146".

Definition bad_line : string :=
  "1.200.76.128 f032b48fb33e1e692  - [29/Jun/2017:03:50:327432-4102637017-4709-9928915"
  +:+ String dquote " " +:+ quoted "-" +:+ " 0.146".

Definition parsed_input_line : gmap string value :=
  list_to_map [
    ("status", VStr "200");
    ("body_bytes_sent", VStr "637");
    ("remote_user", VStr "f032b48fb33e1e692");
    ("request_time", VFloat (Finite (scale10 146 (-3))));
    ("http_referer", VStr (quoted "-"));
    ("remote_addr", VStr "1.200.76.128");
    ("url", VStr "/api/1/campaigns/?id=617832");
    ("http_X_RB_USER", VStr (quoted "-"));
    ("request", VStr (quoted "GET /api/1/campaigns/?id=617832 HTTP/1.1"));
    ("http_x_forwarded_for", VStr (quoted "-"));
    ("http_user_agent", VStr (quoted "-"));
    ("time_local", VStr "[29/Jun/2017:03:50:32 +0300]");
    ("http_X_REQUEST_ID", VStr (quoted "1498697432-4102637017-4709-9928915"));
    ("http_x_real_ip", VStr "-")
  ].

(** [input_line] with request time [-], as nginx writes it when it has
    no value. *)
Definition line_without_time : string :=
  "1.200.76.128 f032b48fb33e1e692  - [29/Jun/2017:03:50:32 +0300] "
  +:+ quoted "GET /api/1/campaigns/?id=617832 HTTP/1.1" +:+ " 200 637 "
  +:+ quoted "-" +:+ " " +:+ quoted "-" +:+ " " +:+ quoted "-" +:+ " "
  +:+ quoted "1498697432-4102637017-4709-9928915" +:+ " " +:+ quoted "-" +:+ " -".

(** [input_line] with no space between the time and the request. *)
Definition line_without_separator : string :=
  "1.200.76.128 f032b48fb33e1e692  - [29/Jun/2017:03:50:32 +0300]"
  +:+ quoted "GET /api/1/campaigns/?id=617832 HTTP/1.1" +:+ " 200 637 "
  +:+ quoted "-" +:+ " " +:+ quoted "-" +:+ " " +:+ quoted "-" +:+ " "
  +:+ quoted "1498697432-4102637017-4709-9928915" +:+ " " +:+ quoted "-" +:+ " 0.146".

(** The field names of a template, in order. *)
Definition field_names (fields : list string) : list string :=
  strip is_delimiter <$> fields.

(** [text] is [line[pos : pos + len(text)]]. *)
Definition text_at (line : string) (pos : nat) (text : string) : Prop :=
  str_take (String.length text) (str_drop pos line) = text.

(** The shape of the text a pattern matches: the delimiters are part of
    it. *)
Definition shaped (p : pattern) (text : string) : Prop :=
  match p with
  | QUOTED_PATTERN => exists body, text = String dquote (body +:+ String dquote "")
  | SQUARE_PATTERN => exists body, text = String "[" (body +:+ "]")
  | STRING_PATTERN => text <> "" /\ str_forall (fun c => negb (is_space c)) text = true
  | SEPARATOR_PATTERN => text <> "" /\ str_forall is_space text = true
  end.

(** What the record holds for a field whose pattern matched [text]. *)
Definition stored (field_name text : string) (v : option value) : Prop :=
  if String.eqb field_name "request_time"
  then exists x, float text = Ok x /\ v = Some (VFloat x)
  else v = Some (VStr text).

(** The entry of [parsed] for [field_name] comes from a token of
    [fields] with this name, matched somewhere in [line]. *)
Definition field_parsed (line : string) (fields : list string)
    (parsed : gmap string value) (field_name : string) : Prop :=
  exists (token : string) (pos : nat) (m : match_object),
    token ∈ fields /\ strip is_delimiter token = field_name /\
    re_match (field_pattern token) line pos = Some m /\
    text_at line pos (group m) /\
    shaped (field_pattern token) (group m) /\
    stored field_name (group m) (parsed !! field_name) /\
    (field_name = "request" ->
     exists method url rest,
       split (group m) = method :: url :: rest /\
       parsed !! "url" = Some (VStr url)).

(** Is the last character of [s] white space? *)
Fixpoint ends_with_space (s : string) : bool :=
  match s with
  | "" => false
  | String c "" => is_space c
  | String _ s' => ends_with_space s'
  end.

(** [trailing] does not continue a word that [prefix] leaves open: it is
    empty, or starts with white space, or [prefix] ends with it. *)
Definition word_boundary (prefix trailing : string) : bool :=
  match trailing with
  | "" => true
  | String c _ => is_space c || ends_with_space prefix
  end.

(** [p.match(text)] takes all of [text]. *)
Definition fullmatch (p : pattern) (text : string) : bool :=
  match re_match p text 0 with
  | Some m => String.eqb (group m) text
  | None => false
  end.


(** A field of a well-formed line: the template token, the text of the
    field, and the white space that follows it. *)
Record cell := { token : string; text : string; space : string }.

(** The line made of the fields, one after the other. *)
Fixpoint layout (cells : list cell) : string :=
  match cells with
  | [] => ""
  | c :: cells' => text c +:+ space c +:+ layout cells'
  end.




(** [input_line], field by field. *)
Definition input_cells : list cell :=
  [ {| token := "remote_addr"; text := "1.200.76.128"; space := " " |};
    {| token := "remote_user"; text := "f032b48fb33e1e692"; space := "  " |};
    {| token := "http_x_real_ip"; text := "-"; space := " " |};
    {| token := "[time_local]"; text := "[29/Jun/2017:03:50:32 +0300]"; space := " " |};
    {| token := quoted "request";
       text := quoted "GET /api/1/campaigns/?id=617832 HTTP/1.1"; space := " " |};
    {| token := "status"; text := "200"; space := " " |};
    {| token := "body_bytes_sent"; text := "637"; space := " " |};
    {| token := quoted "http_referer"; text := quoted "-"; space := " " |};
    {| token := quoted "http_user_agent"; text := quoted "-"; space := " " |};
    {| token := quoted "http_x_forwarded_for"; text := quoted "-"; space := " " |};
    {| token := quoted "http_X_REQUEST_ID";
       text := quoted "1498697432-4102637017-4709-9928915"; space := " " |};
    {| token := quoted "http_X_RB_USER"; text := quoted "-"; space := " " |};
    {| token := "request_time"; text := "0.146"; space := "" |} ].

(** ** [parse_file] *)






(** ** [get_last_log_file] *)


(** ** [calc_stats] and the report *)

(** [sum(stat.count for stat in stats)] *)
Definition total_count (stats : list url_stat) : Z :=
  foldr (fun s acc => count s + acc)%Z 0%Z stats.

(** The same sum over the entries of [stats['urls']]. *)
Definition sum_counts (l : list url_record) : Z :=
  foldr (fun u acc => ur_count u + acc)%Z 0%Z l.

(** The share of a URL in the requests as the specification gives it,
    [100 * count / requests_count], and the sum of the shares. *)
Definition share (requests : Z) (s : url_stat) : Q :=
  inject_Z (100 * count s) / inject_Z requests.

Definition total_share (requests : Z) (stats : list url_stat) : Q :=
  foldr (fun s acc => share requests s + acc)%Q 0%Q stats.

(** Three requests, each for another URL. *)
Definition three_urls : list log_record :=
  [ {| url := "/a"; request_time := Float 1 |};
    {| url := "/b"; request_time := Float 1 |};
    {| url := "/c"; request_time := Float 1 |} ].

(** The order of the report: [a] may stand in front of [b]. *)
Definition by_time_sum_desc (a b : url_stat) : Prop :=
  (num_value (time_sum b) <= num_value (time_sum a))%Q.

(** * Byte strings: facts *)

Lemma app_cons (c : ascii) (s t : string) : String c s +:+ t = String c (s +:+ t).
Proof. done. Qed.

Lemma app_nil_l (t : string) : "" +:+ t = t.
Proof. done. Qed.

Lemma app_nil_r (s : string) : s +:+ "" = s.
Proof. induction s as [|c s IH]; [done | by rewrite app_cons, IH]. Qed.

Lemma app_assoc (s t u : string) : (s +:+ t) +:+ u = s +:+ (t +:+ u).
Proof. induction s as [|c s IH]; [done | by rewrite !app_cons, IH]. Qed.

Lemma length_app (s t : string) :
  String.length (s +:+ t) = String.length s + String.length t.
Proof. induction s as [|c s IH]; [done | rewrite app_cons; simpl; by rewrite IH]. Qed.

Lemma str_drop_nil (n : nat) : str_drop n "" = "".
Proof. by destruct n. Qed.

Lemma str_drop_ge (n : nat) (s : string) :
  String.length s <= n -> str_drop n s = "".
Proof.
  revert n; induction s as [|c s IH]; intros n Hn; [apply str_drop_nil |].
  destruct n as [|n]; simpl in *; [lia | apply IH; lia].
Qed.

Lemma str_drop_app (n : nat) (s t : string) (c : ascii) (s' : string) :
  str_drop n s = String c s' -> str_drop n (s +:+ t) = String c (s' +:+ t).
Proof.
  revert s; induction n as [|n IH]; intros s H.
  - destruct s; simpl in *; by simplify_eq.
  - destruct s as [|a s]; simpl in *; [done | by apply IH].
Qed.

Lemma str_drop_length_app (pre s : string) (k : nat) :
  str_drop (String.length pre + k) (pre +:+ s) = str_drop k s.
Proof. induction pre as [|c pre IH]; [done | by rewrite app_cons]. Qed.

Lemma length_str_drop (n : nat) (s : string) :
  String.length s <= n + String.length (str_drop n s).
Proof.
  revert s; induction n as [|n IH]; intros s; [simpl; destruct s; simpl; lia |].
  destruct s as [|c s]; simpl; [lia |]. specialize (IH s). lia.
Qed.

Lemma str_take_app (u v : string) : str_take (String.length u) (u +:+ v) = u.
Proof.
  induction u as [|c u IH]; [by destruct v |].
  rewrite app_cons. simpl. by rewrite IH.
Qed.

Lemma str_drop_take_while (p : ascii -> bool) (s : string) :
  str_drop (String.length (take_while p s)) s = drop_while p s.
Proof.
  induction s as [|c s IH]; simpl; [done |].
  destruct (p c); simpl; [apply IH | done].
Qed.

Lemma drop_while_head (p : ascii -> bool) (s : string) (c : ascii) (r : string) :
  drop_while p s = String c r -> p c = false.
Proof.
  induction s as [|a s IH]; simpl; [done |].
  destruct (p a) eqn:Ha; [done | intros; by simplify_eq].
Qed.

Lemma take_drop_while (p : ascii -> bool) (s : string) :
  take_while p s +:+ drop_while p s = s.
Proof.
  induction s as [|c s IH]; simpl; [done |].
  destruct (p c); [by rewrite app_cons, IH | done].
Qed.

(** A run that stops inside [s] is not changed by what follows [s]. *)
Lemma take_while_app_stop (p : ascii -> bool) (s t : string) (c : ascii) (r : string) :
  drop_while p s = String c r ->
  take_while p (s +:+ t) = take_while p s /\
  drop_while p (s +:+ t) = String c (r +:+ t).
Proof.
  induction s as [|a s IH]; [done |]. rewrite app_cons. simpl.
  destruct (p a) eqn:Ha.
  - intros H. destruct (IH H) as [-> ->]. done.
  - intros H. by simplify_eq.
Qed.

(** A run that takes all of [s] goes on into what follows. *)
Lemma take_while_app_all (p : ascii -> bool) (s t : string) :
  drop_while p s = "" ->
  take_while p (s +:+ t) = s +:+ take_while p t.
Proof.
  induction s as [|a s IH]; [done |]. rewrite !app_cons. simpl.
  destruct (p a) eqn:Ha; [| done].
  intros H. by rewrite IH.
Qed.

Lemma take_while_all (p : ascii -> bool) (s : string) :
  drop_while p s = "" -> take_while p s = s.
Proof.
  induction s as [|a s IH]; simpl; [done |].
  destruct (p a); [| done]. intros H. by rewrite IH.
Qed.

Lemma str_forall_take_while (p : ascii -> bool) (s : string) :
  str_forall p (take_while p s) = true.
Proof.
  induction s as [|c s IH]; simpl; [done |].
  destruct (p c) eqn:Hc; simpl; [by rewrite Hc | done].
Qed.

Lemma ends_with_space_drop (n : nat) (s : string) (c : ascii) (r : string) :
  str_drop n s = String c r -> ends_with_space s = ends_with_space (String c r).
Proof.
  revert s; induction n as [|n IH]; intros s H.
  - destruct s; simpl in *; by simplify_eq.
  - destruct s as [|a s]; [done |]. simpl in H.
    rewrite <- (IH _ H). simpl. destruct s; [by rewrite str_drop_nil in H | done].
Qed.

Lemma ends_with_space_word (s : string) :
  s <> "" -> drop_while (fun c => negb (is_space c)) s = "" ->
  ends_with_space s = false.
Proof.
  induction s as [|a s IH]; [done |]. intros _. simpl.
  destruct (is_space a) eqn:Ha; simpl; [done |].
  destruct s as [|b s]; [done |]. intros H. by apply IH.
Qed.

(** * Regular expressions: facts *)

Lemma re_match_at_end (p : pattern) (line : string) (pos : nat) :
  String.length line <= pos -> re_match p line pos = None.
Proof.
  intros H. destruct p; simpl; unfold match_run, match_span;
    by rewrite (str_drop_ge _ _ H).
Qed.

Lemma re_match_end (p : pattern) (line : string) (pos : nat) (m : match_object) :
  re_match p line pos = Some m -> m_end m = pos + String.length (group m).
Proof.
  destruct p; simpl; unfold match_run, match_span.
  - destruct (take_while _ _); [done |]. by intros [= <-].
  - destruct (str_drop pos line) as [|a r]; [done |]. destruct (Ascii.eqb a _); [| done].
    cbv zeta. destruct (take_while _ r) as [|b body]; [done |].
    destruct (str_drop _ r); [done |]. intros [= <-]. simpl.
    rewrite length_app. simpl. lia.
  - destruct (str_drop pos line) as [|a r]; [done |]. destruct (Ascii.eqb a _); [| done].
    cbv zeta. destruct (take_while _ r) as [|b body]; [done |].
    destruct (str_drop _ r); [done |]. intros [= <-]. simpl.
    rewrite length_app. simpl. lia.
  - destruct (take_while _ _); [done |]. by intros [= <-].
Qed.



Lemma match_run_text (p : ascii -> bool) (line : string) (pos : nat) (m : match_object) :
  match_run p line pos = Some m ->
  text_at line pos (group m) /\ group m <> "" /\ str_forall p (group m) = true.
Proof.
  unfold match_run, text_at.
  destruct (take_while p (str_drop pos line)) as [|a g] eqn:Hg; [done |].
  intros [= <-]. cbn [group]. rewrite <- Hg. split_and!.
  - rewrite <- (take_drop_while p (str_drop pos line)) at 2. apply str_take_app.
  - by rewrite Hg.
  - apply str_forall_take_while.
Qed.

Lemma match_span_text (o c : ascii) (line : string) (pos : nat) (m : match_object) :
  match_span o c line pos = Some m ->
  text_at line pos (group m) /\
  exists body, group m = String o (body +:+ String c "").
Proof.
  unfold match_span, text_at.
  destruct (str_drop pos line) as [|a s] eqn:Hs; [done |].
  destruct (Ascii.eqb_spec a o) as [-> | _]; [| done]. cbv zeta.
  destruct (take_while (not_char c) s) as [|a0 s0] eqn:E; [done |].
  destruct (str_drop (String.length (String a0 s0)) s) as [|x y] eqn:E2; [done |].
  intros [= <-]. cbn [group]. split; [| by eexists].
  assert (drop_while (not_char c) s = String x y) as Hr
    by (by rewrite <- str_drop_take_while, E).
  pose proof (drop_while_head _ _ _ _ Hr) as Hx. unfold not_char in Hx.
  apply negb_false_iff, Ascii.eqb_eq in Hx. subst x.
  rewrite <- (take_drop_while (not_char c) s), E, Hr.
  change (String a0 s0 +:+ String c y) with (String a0 s0 +:+ (String c "" +:+ y)).
  rewrite <- app_assoc.
  exact (str_take_app (String o (String a0 s0 +:+ String c "")) y).
Qed.

Lemma re_match_text (p : pattern) (line : string) (pos : nat) (m : match_object) :
  re_match p line pos = Some m ->
  text_at line pos (group m) /\ shaped p (group m).
Proof.
  destruct p; simpl; intros H.
  - by apply match_run_text in H as (? & ? & ?).
  - by apply match_span_text in H as (? & ?).
  - by apply match_span_text in H as (? & ?).
  - by apply match_run_text in H as (? & ? & ?).
Qed.

Lemma fullmatch_spec (p : pattern) (text : string) :
  fullmatch p text = true ->
  re_match p text 0 = Some {| group := text; m_end := String.length text |}.
Proof.
  unfold fullmatch. destruct (re_match p text 0) as [m|] eqn:Hm; [| done].
  intros Heq%String.eqb_eq. pose proof (re_match_end _ _ _ _ Hm) as Hend.
  destruct m as [g e]. simpl in *. by subst.
Qed.

(** The text of a quoted or bracketed field has its delimiters. *)
Lemma fullmatch_shaped (p : pattern) (text : string) :
  fullmatch p text = true -> shaped p text.
Proof. intros H%fullmatch_spec. by apply re_match_text in H as [_ H]. Qed.

Lemma match_span_app (o c : ascii) (line trailing : string) (pos : nat) (m : match_object) :
  match_span o c line pos = Some m ->
  match_span o c (line +:+ trailing) pos = Some m.
Proof.
  unfold match_span. destruct (str_drop pos line) as [|a s] eqn:Hs; [done |].
  rewrite (str_drop_app _ _ trailing _ _ Hs).
  destruct (Ascii.eqb a o); [| done]. cbv zeta.
  destruct (take_while (not_char c) s) as [|a0 s0] eqn:E; [done |].
  destruct (str_drop (String.length (String a0 s0)) s) as [|x y] eqn:E2; [done |].
  intros H.
  assert (drop_while (not_char c) s = String x y) as Hr
    by (by rewrite <- str_drop_take_while, E).
  destruct (take_while_app_stop _ _ trailing _ _ Hr) as [Ht _].
  by rewrite Ht, E, (str_drop_app _ _ trailing _ _ E2).
Qed.

Lemma match_word_app (line trailing : string) (pos : nat) (m : match_object) :
  word_boundary line trailing = true ->
  re_match STRING_PATTERN line pos = Some m ->
  re_match STRING_PATTERN (line +:+ trailing) pos = Some m.
Proof.
  intros Hb. simpl. unfold match_run.
  destruct (str_drop pos line) as [|a s] eqn:Hs; [done |].
  rewrite (str_drop_app _ _ trailing _ _ Hs), <- app_cons.
  set (p := fun c => negb (is_space c)).
  destruct (drop_while p (String a s)) as [|b r] eqn:Hr.
  - rewrite (take_while_app_all _ _ _ Hr), (take_while_all _ _ Hr).
    assert (take_while p trailing = "") as ->; [| by rewrite app_nil_r].
    destruct trailing as [|c t]; [done |]. simpl in *.
    rewrite (ends_with_space_drop _ _ _ _ Hs) in Hb.
    rewrite (ends_with_space_word (String a s)) in Hb by done.
    rewrite orb_false_r in Hb. unfold p. by rewrite Hb.
  - by destruct (take_while_app_stop _ _ trailing _ _ Hr) as [-> _].
Qed.

(** After a separator that ran to the end of the line there is nothing
    left for a field; otherwise the separator is unchanged. *)
Lemma match_separator_app (line trailing : string) (pos : nat) (m : match_object) :
  re_match SEPARATOR_PATTERN line pos = Some m ->
  exists m', re_match SEPARATOR_PATTERN (line +:+ trailing) pos = Some m' /\
             (m' = m \/ String.length line <= m_end m).
Proof.
  simpl. unfold match_run.
  destruct (str_drop pos line) as [|a s] eqn:Hs; [done |].
  rewrite (str_drop_app _ _ trailing _ _ Hs), <- app_cons.
  destruct (drop_while is_space (String a s)) as [|b r] eqn:Hr.
  - rewrite (take_while_app_all _ _ _ Hr), (take_while_all _ _ Hr), app_cons.
    intros [= <-]. eexists; split; [done |]. right. simpl.
    pose proof (length_str_drop pos line) as Hl. rewrite Hs in Hl. simpl in Hl. lia.
  - destruct (take_while_app_stop _ _ trailing _ _ Hr) as [-> _].
    intros H. exists m. split; [done | by left].
Qed.

Lemma field_pattern_app (token line trailing : string) (pos : nat) (m : match_object) :
  word_boundary line trailing = true ->
  re_match (field_pattern token) line pos = Some m ->
  re_match (field_pattern token) (line +:+ trailing) pos = Some m.
Proof.
  intros Hb. unfold field_pattern.
  destruct (_ && _); [apply match_span_app |].
  destruct (_ && _); [apply match_span_app | by apply match_word_app].
Qed.




(** * [float]: facts *)


Example float_decimal : float "0.146" = Ok (Finite (Qred (146 # 1000))).
Proof. vm_compute. reflexivity. Qed.

Example float_exponent : float "-1.5e-2" = Ok (Finite (- 3 # 200)).
Proof. vm_compute. reflexivity. Qed.

Example float_nan : float "NaN" = Ok NaN.
Proof. vm_compute. reflexivity. Qed.

Example float_dash : float "-" = Raised ValueError.
Proof. vm_compute. reflexivity. Qed.

(** * [parse_line]: facts *)

Lemma bind_ok {A B : Type} (a : A) (k : A -> result B) : Ok a ≫= k = k a.
Proof. done. Qed.

Lemma parse_fields_cons (line last token : string) (fields : list string)
    (parsed : gmap string value) (end_ : nat) :
  parse_fields line last (token :: fields) parsed end_ =
  match re_match (field_pattern token) line end_ with
  | None => Ok None
  | Some m =>
      match (if String.eqb (strip is_delimiter token) "request"
             then store_url (group m) parsed else Some parsed) with
      | None => Ok None
      | Some parsed =>
          parsed ← store_field (strip is_delimiter token) (group m) parsed;
          if negb (String.eqb (strip is_delimiter token) last) then
            match re_match SEPARATOR_PATTERN line (m_end m) with
            | None => Raised AttributeError
            | Some msep => parse_fields line last fields parsed (m_end msep)
            end
          else parse_fields line last fields parsed end_
      end
  end.
Proof. done. Qed.


Lemma store_field_lookup (field_name text : string) (parsed parsed' : gmap string value) :
  store_field field_name text parsed = Ok parsed' ->
  stored field_name text (parsed' !! field_name) /\
  forall key, key <> field_name -> parsed' !! key = parsed !! key.
Proof.
  unfold store_field, stored.
  destruct (String.eqb field_name "request_time").
  - destruct (float text) as [x|e]; [| done]. rewrite bind_ok. intros [= <-].
    split; [exists x; by rewrite lookup_insert_eq |].
    intros key Hkey. by rewrite lookup_insert_ne.
  - intros [= <-]. split; [by rewrite lookup_insert_eq |].
    intros key Hkey. by rewrite lookup_insert_ne.
Qed.

Lemma store_url_lookup (text : string) (parsed parsed' : gmap string value) :
  store_url text parsed = Some parsed' ->
  (exists method url rest,
      split text = method :: url :: rest /\ parsed' !! "url" = Some (VStr url)) /\
  forall key, key <> "url" -> parsed' !! key = parsed !! key.
Proof.
  unfold store_url. destruct (split text) as [|method [|url rest]]; [done.. |].
  intros [= <-]. split.
  - exists method, url, rest. by rewrite lookup_insert_eq.
  - intros key Hkey. by rewrite lookup_insert_ne.
Qed.

(** The state of the record at the end of the loop, key by key: a name
    of a remaining token holds what its last token matched, any other
    key is as it was (the key url is also written with a request
    field). *)
Lemma parse_fields_inv (line last : string) (fields : list string) :
  "url" ∉ field_names fields ->
  forall (parsed0 : gmap string value) (end_ : nat) (parsed : gmap string value),
    parse_fields line last fields parsed0 end_ = Ok (Some parsed) ->
    forall key : string,
      (key ∈ field_names fields -> field_parsed line fields parsed key) /\
      (key ∉ field_names fields ->
       (key = "url" -> "request" ∉ field_names fields) ->
       parsed !! key = parsed0 !! key).
Proof.
  unfold field_names.
  induction fields as [|token fields IH]; intros Hurl parsed0 end_ parsed H key.
  { simpl in H. simplify_eq. split; [by intros ?%elem_of_nil | done]. }
  rewrite fmap_cons in Hurl |- *. apply not_elem_of_cons in Hurl as [Hname Hurl].
  rewrite parse_fields_cons in H.
  destruct (re_match (field_pattern token) line end_) as [m|] eqn:Hm; [| done].
  set (field_name := strip is_delimiter token) in *.
  destruct (if String.eqb field_name "request" then _ else _) as [parsed1|] eqn:H1;
    [| done].
  destruct (store_field _ _ parsed1) as [parsed2|e] eqn:H2; [| done].
  rewrite bind_ok in H.
  apply store_field_lookup in H2 as [Hstored Hother].
  assert (exists e, parse_fields line last fields parsed2 e = Ok (Some parsed)) as [e He].
  { destruct (negb _); [| by eexists].
    destruct (re_match SEPARATOR_PATTERN _ _); [by eexists | done]. }
  clear H. pose proof (IH Hurl _ _ _ He) as IH'.
  split.
  - intros Hkey. destruct (decide (key ∈ strip is_delimiter <$> fields)) as [Hin | Hnin].
    + destruct (proj1 (IH' key) Hin) as (tok & pos & m' & Htok & ?).
      exists tok, pos, m'. split; [by apply list_elem_of_further | done].
    + apply elem_of_cons in Hkey as [-> | ?]; [| done].
      destruct (re_match_text _ _ _ _ Hm) as [Htext Hshape].
      exists token, end_, m. split_and!; try done.
      * apply list_elem_of_here.
      * rewrite (proj2 (IH' field_name) Hnin); [done |]. by intros ?.
      * intros Hreq. rewrite Hreq, String.eqb_refl in H1.
        apply store_url_lookup in H1 as [(method & url & rest & Hsplit & Hu) _].
        exists method, url, rest. split; [done |].
        rewrite (proj2 (IH' "url") Hurl); [| intros _; by rewrite <- Hreq].
        by rewrite (Hother _ Hname).
  - intros [Hkey Hnin]%not_elem_of_cons Hreq.
    rewrite (proj2 (IH' key) Hnin), (Hother _ Hkey).
    + destruct (String.eqb_spec field_name "request") as [Heq | Hne].
      * apply store_url_lookup in H1 as [_ H1]. apply H1.
        intros ->. apply Hreq; [done |]. rewrite Heq. apply list_elem_of_here.
      * by simplify_eq.
    + intros Hk Hin. apply (Hreq Hk). by apply list_elem_of_further.
Qed.

Lemma parse_fields_app (line trailing last : string) (fields : list string) :
  word_boundary line trailing = true ->
  forall (parsed0 : gmap string value) (end_ : nat) (parsed : gmap string value),
    parse_fields line last fields parsed0 end_ = Ok (Some parsed) ->
    parse_fields (line +:+ trailing) last fields parsed0 end_ = Ok (Some parsed).
Proof.
  intros Hb. induction fields as [|token fields IH]; intros parsed0 end_ parsed H; [done |].
  rewrite parse_fields_cons in H |- *.
  destruct (re_match (field_pattern token) line end_) as [m|] eqn:Hm; [| done].
  rewrite (field_pattern_app _ _ _ _ _ Hb Hm).
  set (field_name := strip is_delimiter token) in *.
  destruct (if String.eqb field_name "request" then _ else _) as [parsed1|]; [| done].
  destruct (store_field _ _ parsed1) as [parsed2|e]; [| done].
  rewrite bind_ok in H |- *.
  destruct (negb _); [| by apply IH].
  destruct (re_match SEPARATOR_PATTERN line (m_end m)) as [msep|] eqn:Hsep; [| done].
  destruct (match_separator_app _ trailing _ _ Hsep) as (msep' & -> & [-> | Hend]);
    [by apply IH |].
  destruct fields as [|token' fields]; [done |].
  rewrite parse_fields_cons in H. by rewrite (re_match_at_end _ _ _ Hend) in H.
Qed.



Example parse_line_input_line :
  parse_line input_line LOG_FORMAT = Ok (Some parsed_input_line).
Proof. vm_compute. reflexivity. Qed.

Example parse_line_bad_line : parse_line bad_line LOG_FORMAT = Ok None.
Proof. vm_compute. reflexivity. Qed.

Example layout_input_cells : layout input_cells = input_line.
Proof. vm_compute. reflexivity. Qed.

(** A template that ends with a quoted token: line 74 compares the
    name without its quotes to the token with them, and asks for a
    separator after the last field. *)
Example parse_line_quoted_last :
  parse_line ("GET " +:+ quoted "/index") ("method " +:+ quoted "path")
  = Raised AttributeError /\
  parse_line ("GET " +:+ quoted "/index" +:+ String "010" "") ("method " +:+ quoted "path")
  = Ok (Some (<["path" := VStr (quoted "/index")]> (<["method" := VStr "GET"]> ∅))).
Proof. split; vm_compute; reflexivity. Qed.

(** What a record returned by [parse_line] holds, key by key, when no
    field of the template is itself named url: the value of a field
    name is the text its pattern matched in the line, quotes or brackets
    included, or that text converted by [float] for request_time; with
    a request field, the key url holds the second word of its text. *)
Lemma parse_line_record (line format : string) (parsed : gmap string value) :
  parse_line line format = Ok (Some parsed) ->
  "url" ∉ field_names (split format) ->
  forall field_name : string,
    field_name ∈ field_names (split format) ->
    field_parsed line (split format) parsed field_name.
Proof.
  intros H Hurl field_name Hin.
  by apply (parse_fields_inv _ _ _ Hurl _ _ _ H field_name).
Qed.



(** C9: [parse_line] does not ask for the end of the line.  When it
    returns a record for a line, it returns the same record for the line
    followed by any further content; the content starts after the final
    field, that is, it does not continue a word the line leaves open. *)
Theorem parse_line_trailing (line trailing format : string) (parsed : gmap string value) :
  parse_line line format = Ok (Some parsed) ->
  word_boundary line trailing = true ->
  parse_line (line +:+ trailing) format = Ok (Some parsed).
Proof. intros H Hb. by apply parse_fields_app. Qed.

Lemma parse_line_trailing_witness :
  parse_line (input_line +:+ " upstream=10.0.0.7 cache:MISS") LOG_FORMAT
  = Ok (Some parsed_input_line).
Proof.
  apply (parse_line_trailing input_line); [vm_compute; reflexivity | reflexivity].
Defined.

(** C2: two malformed lines on which [parse_line] raises instead of
    returning [None]: the request time [-] makes [float] raise
    [ValueError], which line 71 does not catch, and a missing separator
    makes [msep.end()] raise [AttributeError] on line 76, outside the
    [try] block. *)
Theorem parse_line_raises :
  parse_line line_without_time LOG_FORMAT = Raised ValueError /\
  parse_line line_without_separator LOG_FORMAT = Raised AttributeError.
Proof. split; vm_compute; reflexivity. Qed.

(** * [parse_file]: facts *)






Example parse_file_at_limit :
  parse_file [input_line; bad_line] LOG_FORMAT (Some (1 # 2))
  = Yield parsed_input_line StopIteration.
Proof. vm_compute. reflexivity. Qed.

Example parse_file_over_limit :
  parse_file [input_line; bad_line; bad_line] LOG_FORMAT (Some (1 # 2))
  = Yield parsed_input_line (Throw RuntimeError).
Proof. vm_compute. reflexivity. Qed.

(** * [get_last_log_file]: facts *)









Lemma strip_prefix_spec (p s r : string) : strip_prefix p s = Some r <-> s = p +:+ r.
Proof.
  revert s. induction p as [|a p IH]; intros s.
  - rewrite app_nil_l. destruct s; simpl; (split; [by intros [= ->] | by intros ->]).
  - destruct s as [|b s]; [done |]. rewrite app_cons. simpl.
    destruct (Ascii.eqb_spec a b) as [-> | Hne].
    + rewrite IH. split; [by intros -> | by intros [= ->]].
    + split; [done | by intros [= -> _]].
Qed.

Lemma str_take_drop (n : nat) (s : string) : str_take n s +:+ str_drop n s = s.
Proof.
  revert s. induction n as [|n IH]; intros [|c s]; simpl; try done.
  by rewrite app_cons, IH.
Qed.

Lemma at_end_spec (s : string) : at_end s = true <-> s = "" \/ s = String "010" "".
Proof. unfold at_end. by rewrite orb_true_iff, !String.eqb_eq. Qed.

(** Line 33, read back: the entries that match are the prefix, eight
    digits, an optional [.gz], and possibly a final line feed, which the
    dollar sign lets through. *)
Lemma match_filename_spec (filename digits : string) :
  match_filename filename = Some digits <->
  String.length digits = 8 /\ str_forall is_digit digits = true /\
  exists tail,
    filename = "nginx-access-ui.log-" +:+ digits +:+ tail /\
    tail ∈ [""; String "010" ""; ".gz"; ".gz" +:+ String "010" ""].
Proof.
  unfold match_filename. split.
  - destruct (strip_prefix _ filename) as [s|] eqn:Hs; [| done].
    apply strip_prefix_spec in Hs.
    destruct (_ && _) eqn:H; [| done]. intros Heq.
    assert (digits = str_take 8 s) as -> by congruence. clear Heq.
    apply andb_true_iff in H as [[Hlen%Nat.eqb_eq Hdig]%andb_true_iff Htail].
    split_and!; [done.. |]. exists (str_drop 8 s).
    rewrite str_take_drop. split; [done |].
    apply orb_true_iff in Htail as [Hend | Hgz].
    + apply at_end_spec in Hend as [-> | ->]; set_solver.
    + destruct (strip_prefix ".gz" (str_drop 8 s)) as [r|] eqn:Hr; [| done].
      apply strip_prefix_spec in Hr. rewrite Hr.
      apply at_end_spec in Hgz as [-> | ->]; set_solver.
  - intros (Hlen & Hdig & tail & -> & Htail).
    assert (at_end tail || match strip_prefix ".gz" tail with
                           | Some rest' => at_end rest'
                           | None => false
                           end = true) as Hgz.
    { repeat (apply elem_of_cons in Htail as [-> | Htail]; [done |]).
      by apply elem_of_nil in Htail. }
    assert (strip_prefix "nginx-access-ui.log-" ("nginx-access-ui.log-" +:+ digits +:+ tail)
            = Some (digits +:+ tail)) as -> by (by apply strip_prefix_spec).
    assert (str_take 8 (digits +:+ tail) = digits) as ->
      by (rewrite <- Hlen; apply str_take_app).
    assert (str_drop 8 (digits +:+ tail) = tail) as ->.
    { rewrite <- Hlen, <- (Nat.add_0_r (String.length digits)).
      apply str_drop_length_app. }
    by rewrite Hlen, Hdig, Hgz.
Qed.

Example get_last_log_file_example :
  get_last_log_file
    (Directory ["nginx-access-ui.log-20170628"; "nginx-access-ui.log-20170630";
                "nginx-access-ui.log-20170629.gz"; "nginx-access-ui.log-20170631";
                "nginx-access-ui.log-20170701.bz2"; "report.html"])
  = Ok (Some {| filename := "nginx-access-ui.log-20170630";
                date := {| year := 2017; month := 6; day := 30 |} |}).
Proof. vm_compute. reflexivity. Qed.


(** * Sorting: facts *)

Section SortedFacts.
Context {A : Type} (before : A -> A -> bool) (R : relation A).
Hypothesis before_true : forall x y, before y x = true -> R y x.
Hypothesis before_false : forall x y, before y x = false -> R x y.

Lemma insert_sorted_perm (x : A) (l : list A) : insert_sorted before x l ≡ₚ x :: l.
Proof.
  induction l as [|y l IH]; simpl; [done |].
  destruct (before y x); [| done]. by rewrite IH, Permutation_swap.
Qed.

Lemma sorted_by_perm (l : list A) : sorted_by before l ≡ₚ l.
Proof.
  induction l as [|x l IH]; simpl; [done |]. by rewrite insert_sorted_perm, IH.
Qed.

Lemma sorted_by_length (l : list A) : length (sorted_by before l) = length l.
Proof. by rewrite sorted_by_perm. Qed.


End SortedFacts.


(** * The report data: facts *)



#[local] Instance by_time_sum_desc_trans : Transitive by_time_sum_desc.
Proof. intros a b c Hab Hbc. unfold by_time_sum_desc in *. by eapply Qle_trans. Qed.



(** * [median] and [calc_stats]: facts *)

Lemma sorted_length (numbers : list num) : length (sorted numbers) = length numbers.
Proof. apply sorted_by_length. Qed.

(** On a list of odd length [median] is the middle value of the sorted
    list. *)
Lemma median_odd (numbers : list num) :
  length numbers mod 2 = 1 ->
  exists x, median numbers = Ok x /\
            sorted numbers !! (length numbers / 2) = Some x /\
            standard_median numbers = Some (num_value x).
Proof.
  intros Hodd. unfold median, standard_median. rewrite sorted_length, Hodd.
  change (negb (1 =? 0)) with true. change (1 =? 1) with true. cbv iota.
  destruct (lookup_lt_is_Some_2 (sorted numbers) (length numbers / 2)) as [x Hx].
  { rewrite sorted_length. apply Nat.Div0.div_lt_upper_bound.
    destruct numbers; [done | simpl; lia]. }
  exists x. by rewrite Hx.
Qed.

(** C10: on the empty list [median] raises nothing and returns the
    integer 0: the slice of line 105 is empty, its sum is 0, and 0 / 2
    is 0. *)
Theorem median_empty : median [] = Ok (Int 0).
Proof. reflexivity. Qed.

(** C1: an even-length list on which [median] is not the standard
    median.  Line 105 takes the two middle items of [numbers] as given,
    not of the sorted list as line 103 does: of 5, 1, 1, 5 it returns 1,
    the standard median is 3; of 4.0, 1.0, 2.0, 3.0 it returns 1.5, the
    standard median is 2.5. *)
Theorem median_even_unsorted :
  median [Int 5; Int 1; Int 1; Int 5] = Ok (Int 1) /\
  standard_median [Int 5; Int 1; Int 1; Int 5] = Some 3%Q /\
  median [Float 4; Float 1; Float 2; Float 3] = Ok (Float (3 # 2)) /\
  standard_median [Float 4; Float 1; Float 2; Float 3] = Some (5 # 2)%Q.
Proof. split_and!; vm_compute; reflexivity. Qed.

Example median_test : median [Int 1; Int 5; Int 7; Int 10; Int 2; Int 5; Int 7] = Ok (Int 5).
Proof. vm_compute. reflexivity. Qed.

Lemma sum_counts_perm (l l' : list url_record) : l ≡ₚ l' -> sum_counts l = sum_counts l'.
Proof. induction 1; simpl; lia. Qed.

(** Lines 111-121 keep the counts of the URLs in step with
    [requests_count]. *)
Lemma add_record_counts (st : stats) (r : log_record) :
  sum_counts (map_to_list (urls (add_record st r))).*2
  = (sum_counts (map_to_list (urls st)).*2 + 1)%Z /\
  requests_count (add_record st r) = (requests_count st + 1)%Z.
Proof.
  split; [| done]. unfold add_record. simpl.
  destruct (urls st !! url r) as [u|] eqn:Hu.
  - rewrite <- (insert_delete_eq (urls st)).
    rewrite (sum_counts_perm _ _ (fmap_Permutation snd _ _
               (map_to_list_insert _ _ _ (lookup_delete_eq _ _)))).
    rewrite <- (sum_counts_perm _ _ (fmap_Permutation snd _ _
               (map_to_list_delete _ _ _ Hu))).
    simpl. apply Z.add_shuffle0.
  - rewrite (sum_counts_perm _ _ (fmap_Permutation snd _ _
               (map_to_list_insert _ _ _ Hu))).
    simpl. apply Z.add_comm.
Qed.

Lemma fold_add_record_counts (log_records : list log_record) (st : stats) :
  sum_counts (map_to_list (urls st)).*2 = requests_count st ->
  sum_counts (map_to_list (urls (fold_left add_record log_records st))).*2
  = (requests_count st + Z.of_nat (length log_records))%Z.
Proof.
  revert st. induction log_records as [|r l IH]; intros st Hst; simpl; [lia |].
  destruct (add_record_counts st r) as [H1 H2].
  rewrite IH, H2; [lia |]. by rewrite H1, H2, Hst.
Qed.

Lemma finalize_count (st : stats) (u : url_record) (s : url_stat) :
  finalize st u = Ok s -> count s = ur_count u.
Proof.
  unfold finalize.
  destruct (num_div _ (Int (requests_count st))); [rewrite bind_ok | done].
  destruct (num_div _ (requests_time_sum st)); [rewrite bind_ok | done].
  destruct (num_div _ (Int (ur_count u))); [rewrite bind_ok | done].
  destruct (max _); [rewrite bind_ok | done].
  destruct (median _); [rewrite bind_ok | done].
  by intros [= <-].
Qed.

Lemma for_each_finalize_count (st : stats) (us : list url_record) (l : list url_stat) :
  for_each (finalize st) us = Ok l -> total_count l = sum_counts us.
Proof.
  revert l. induction us as [|u us IH]; intros l; simpl; [by intros [= <-] |].
  destruct (finalize st u) as [s|] eqn:Hs; [rewrite bind_ok | done].
  destruct (for_each (finalize st) us) as [l'|]; [rewrite bind_ok | done].
  intros [= <-]. simpl. by rewrite (finalize_count _ _ _ Hs), (IH l').
Qed.

(** The counts of the statistics add up to the number of records. *)
Lemma calc_stats_total_count (log_records : list log_record) (l : list url_stat) :
  calc_stats log_records = Ok l ->
  total_count l = Z.of_nat (length log_records).
Proof.
  unfold calc_stats. intros H. apply for_each_finalize_count in H.
  rewrite H, fold_add_record_counts; [simpl; lia |].
  cbn [urls requests_count]. by rewrite map_to_list_empty.
Qed.

Lemma fold_add_record_requests (log_records : list log_record) (st : stats) :
  requests_count (fold_left add_record log_records st)
  = (requests_count st + Z.of_nat (length log_records))%Z.
Proof.
  revert st. induction log_records as [|r l IH]; intros st; simpl; [lia |].
  rewrite IH. simpl. lia.
Qed.

Lemma finalize_count_perc (st : stats) (u : url_record) (s : url_stat) :
  finalize st u = Ok s ->
  count_perc s = Int (100 * count s / requests_count st).
Proof.
  unfold finalize.
  destruct (num_div _ (Int (requests_count st))) as [cp|] eqn:Hcp;
    [rewrite bind_ok | done].
  destruct (num_div _ (requests_time_sum st)); [rewrite bind_ok | done].
  destruct (num_div _ (Int (ur_count u))); [rewrite bind_ok | done].
  destruct (max _); [rewrite bind_ok | done].
  destruct (median _); [rewrite bind_ok | done].
  intros [= <-]. cbn [count_perc count]. cbn [num_div num_mul] in Hcp.
  destruct (requests_count st =? 0)%Z; [done |].
  injection Hcp as <-. by rewrite Z.mul_comm.
Qed.

Lemma for_each_Forall {A B : Type} (f : A -> result B) (P : B -> Prop)
    (l : list A) (l' : list B) :
  (forall a b, f a = Ok b -> P b) -> for_each f l = Ok l' -> Forall P l'.
Proof.
  intros Hf. revert l'. induction l as [|a l IH]; intros l'; simpl; [by intros [= <-] |].
  destruct (f a) as [b|] eqn:Hb; [rewrite bind_ok | done].
  destruct (for_each f l) as [bs|]; [rewrite bind_ok | done].
  intros [= <-]. constructor; [by eapply Hf | by apply IH].
Qed.

(** Line 124 on two [int]s: every [count_perc] is the share rounded
    down to an integer. *)
Lemma calc_stats_count_perc (log_records : list log_record) (l : list url_stat) :
  calc_stats log_records = Ok l ->
  Forall (fun s => count_perc s = Int (100 * count s / Z.of_nat (length log_records))) l.
Proof.
  unfold calc_stats. apply for_each_Forall. intros u s Hs.
  rewrite (finalize_count_perc _ _ _ Hs), fold_add_record_requests. simpl.
  by rewrite Z.add_0_l.
Qed.

Lemma total_share_count (requests : Z) (l : list url_stat) :
  requests <> 0%Z ->
  (total_share requests l == inject_Z (100 * total_count l) / inject_Z requests)%Q.
Proof.
  intros Hn. assert (~ inject_Z requests == 0)%Q as Hq.
  { intros H. apply Hn. by apply (inject_Z_injective requests 0). }
  induction l as [|s l IH]; simpl.
  - rewrite Z.mul_0_r. by field.
  - rewrite IH. unfold share.
    rewrite Z.mul_add_distr_l, inject_Z_plus. by field.
Qed.

(** The shares themselves add up to 100: what the claim of the
    specification rests on. *)
Lemma calc_stats_total_share (log_records : list log_record) (l : list url_stat) :
  calc_stats log_records = Ok l -> log_records <> [] ->
  (total_share (Z.of_nat (length log_records)) l == 100)%Q.
Proof.
  intros H Hne. assert (Z.of_nat (length log_records) <> 0%Z) as Hn
    by (destruct log_records; [done | simpl; lia]).
  rewrite (total_share_count _ _ Hn), (calc_stats_total_count _ _ H).
  rewrite inject_Z_mult. field. intros Hq. apply Hn.
  by apply (inject_Z_injective _ 0).
Qed.

Example calc_stats_zero_time :
  calc_stats [ {| url := "/"; request_time := Float 0 |} ] = Raised ZeroDivisionError.
Proof. vm_compute. reflexivity. Qed.

(** C7: three requests for three URLs.  The counts add up to 3, the
    number of records, but each [count_perc] is [1 * 100 / 3] between
    two [int]s, that is 33, and the sum of the percentages is 99. *)
Theorem calc_stats_count_perc_floor :
  exists l,
    calc_stats three_urls = Ok l /\
    total_count l = 3%Z /\
    count_perc <$> l = [Int 33; Int 33; Int 33] /\
    sum (count_perc <$> l) = Int 99.
Proof. eexists. split_and!; vm_compute; reflexivity. Qed.

(** C8: without records there is no URL, lines 124-130 run for no
    entry and no division takes place: the result is the empty list. *)
Theorem calc_stats_empty : calc_stats [] = Ok [].
Proof. vm_compute. reflexivity. Qed.
